(** * habitist: streak tokens in task texts and the daily evaluation pass

    A shallow embedding of [habits.py].  A Python [str] is a [list ascii],
    read as the code points U+0000..U+00FF; integers are unbounded ([Z], [N]).
    The pattern [\[day\s(\d+)\/(\d+)]] is embedded as a direct matcher and
    related to a declarative reading of the grammar. *)

From Stdlib Require Import Ascii String.
From Stdlib Require Import List ZArith NArith Lia Bool Arith.
From Equations Require Import Equations.
Import ListNotations.

Local Open Scope char_scope.
Local Open Scope list_scope.

(** ** Texts *)

Definition text := list ascii.

(** A string literal as a text. *)
Definition lit (s : string) : text := list_ascii_of_string s.
Arguments lit s%_string.

(** ** Character classes of [re] on [str] patterns *)

(** [\d]: a decimal digit; below U+0100 these are '0'..'9' only. *)
Definition is_digit (c : ascii) : bool :=
  let n := N_of_ascii c in ((48 <=? n) && (n <=? 57))%N.

(** [\s]: Unicode white space; below U+0100 these are
    TAB, LF, VT, FF, CR, FS, GS, RS, US, SPACE, NEL and NBSP. *)
Definition is_space (c : ascii) : bool :=
  let n := N_of_ascii c in
  (((9 <=? n) && (n <=? 13)) || ((28 <=? n) && (n <=? 32))
   || (n =? 133) || (n =? 160))%N.

(** ** Integers and their decimal text *)

Definition digit_char (n : N) : ascii := ascii_of_N (48 + n).
Definition digit_val (c : ascii) : N := (N_of_ascii c - 48)%N.

(** The digits of [n], most significant first, pushed in front of [acc]. *)
Fixpoint digits_fuel (fuel : nat) (n : N) (acc : text) : text :=
  match fuel with
  | O => acc
  | S f =>
      if (n <? 10)%N then digit_char n :: acc
      else digits_fuel f (n / 10)%N (digit_char (n mod 10)%N :: acc)
  end.

Definition str_of_N (n : N) : text :=
  digits_fuel (S (N.to_nat (N.size n))) n [].

(** [str(n)] and ['{}'.format(n)] for an [int]. *)
Definition str_of_Z (z : Z) : text :=
  if (z <? 0)%Z then "-" :: str_of_N (Z.to_N (- z)) else str_of_N (Z.to_N z).

(** [int(s)] on a run of digits. *)
Definition int_of_digits (ds : text) : Z :=
  Z.of_N (fold_left (fun a c => (a * 10 + digit_val c)%N) ds 0%N).

(** ** The pattern [\[day\s(\d+)\/(\d+)]] *)

(** The longest run of digits in front of [s], and what follows it. *)
Fixpoint span_digits (s : text) : text * text :=
  match s with
  | c :: s' =>
      if is_digit c then let (ds, r) := span_digits s' in (c :: ds, r)
      else ([], s)
  | [] => ([], [])
  end.

(** An anchored match at the front of [s]: the two groups and the rest of
    the text after the closing bracket.  [\d+] is greedy; as the character
    that has to follow it is not a digit, only the longest run can match. *)
Definition match_here (s : text) : option (text * text * text) :=
  match s with
  | "[" :: "d" :: "a" :: "y" :: w :: s1 =>
      if is_space w then
        match span_digits s1 with
        | ((_ :: _) as d1, "/" :: s2) =>
            match span_digits s2 with
            | ((_ :: _) as d2, "]" :: s3) => Some (d1, d2, s3)
            | _ => None
            end
        | _ => None
        end
      else None
  | _ => None
  end.

(** A match object: the text before the match, the groups, the text after. *)
Record re_match := { m_pre : text; group1 : text; group2 : text; m_post : text }.

Definition shift (c : ascii) (m : re_match) : re_match :=
  {| m_pre := c :: m_pre m; group1 := group1 m; group2 := group2 m;
     m_post := m_post m |}.

(** [re.search]: the leftmost match, or [None]. *)
Fixpoint re_search (s : text) : option re_match :=
  match s with
  | [] => None
  | c :: s' =>
      match match_here s with
      | Some (d1, d2, r) =>
          Some {| m_pre := []; group1 := d1; group2 := d2; m_post := r |}
      | None => option_map (shift c) (re_search s')
      end
  end.

(** A value together with the equation that names it. *)
Definition inspect {A : Type} (a : A) : {b : A | a = b} := exist _ a eq_refl.

(** [re.sub] with a literal replacement: every match, leftmost first and
    not overlapping, is replaced by [repl]; the rest is copied. *)
Equations? re_sub (repl : text) (s : text) : text by wf (length s) lt :=
  re_sub repl [] := [];
  re_sub repl (c :: s') with inspect (match_here (c :: s')) := {
    | exist _ (Some (_, _, r)) E := repl ++ re_sub repl r;
    | exist _ None _ := c :: re_sub repl s' }.
Proof.
  assert (SP : forall s, length (snd (span_digits s)) <= length s).
  { induction s as [|a s IH]; simpl; [lia|].
    destruct (is_digit a); simpl; [|lia].
    destruct (span_digits s); simpl in *; lia. }
  revert E. unfold match_here.
  repeat (match goal with
          | |- context [match ?x with _ => _ end] =>
              let E := fresh "E" in destruct x eqn:E; try discriminate
          end).
  intros [= <- <- <-].
  repeat match goal with
         | H : span_digits ?x = _ |- _ =>
             pose proof (SP x); rewrite H in *; clear H
         end.
  simpl in *. lia.
Qed.


(** ** Items and the queue of changes *)

(** The [due] dict of an item: [.get('date')] and the ['string'] entry;
    [None] stands for a missing key as for a [None] value. *)
Record due_dict := { d_date : option text; d_string : option text }.

(** The fields of an item that the program reads or writes. *)
Record item := { content : text; due : option due_dict; in_history : bool }.

(** The changes an item queues on the client until [commit]. *)
Inductive command :=
| item_update_content (c : text)
| item_update_due (d : due_dict)
| item_delete.

(** A [Task] object: its item and the changes queued so far. *)
Record task := { task_item : item; queue : list command }.

Definition new_task (it : item) : task := {| task_item := it; queue := [] |}.

(** Reading an attribute of [None] raises. *)
Inductive exn := AttributeError.

(** ** Methods of [Task]: state over the task, with exceptions *)

Definition Task (A : Type) : Type := task -> exn + (A * task).

Definition ret {A} (a : A) : Task A := fun st => inr (a, st).

Definition bind {A B} (m : Task A) (k : A -> Task B) : Task B :=
  fun st => match m st with
            | inl e => inl e
            | inr (a, st') => k a st'
            end.

Definition raise {A} (e : exn) : Task A := fun _ => inl e.

Notation "x <- m ;; k" := (bind m (fun x => k))
  (at level 61, m at next level, right associativity).
Notation "m ;;; k" := (bind m (fun _ => k))
  (at level 61, right associativity).

Definition get_item : Task item := fun st => inr (task_item st, st).

Definition set_content (c : text) (it : item) : item :=
  {| content := c; due := due it; in_history := in_history it |}.

Definition set_due (d : due_dict) (it : item) : item :=
  {| content := content it; due := Some d; in_history := in_history it |}.

(** [item.update(content=c)]: the item changes and the change is queued. *)
Definition update_content (c : text) : Task unit :=
  fun st => inr (tt, {| task_item := set_content c (task_item st);
                        queue := queue st ++ [item_update_content c] |}).

(** [item.update(due=d)] *)
Definition update_due (d : due_dict) : Task unit :=
  fun st => inr (tt, {| task_item := set_due d (task_item st);
                        queue := queue st ++ [item_update_due d] |}).

(** [item.delete()] *)
Definition delete : Task unit :=
  fun st => inr (tt, {| task_item := task_item st;
                        queue := queue st ++ [item_delete] |}).

Definition text_eqb (a b : text) : bool :=
  if list_eq_dec ascii_dec a b then true else false.

(** Truth value of [None] or a [str]. *)
Definition truthy (o : option text) : bool :=
  match o with
  | Some (_ :: _) => true
  | _ => false
  end.

Definition get_habit : Task (option re_match) :=
  it <- get_item ;; ret (re_search (content it)).

Definition is_habit : Task bool :=
  habit <- get_habit ;;
  it <- get_item ;;
  let c1 := match habit with Some _ => true | None => false end in
  let c2 := match due it with Some d => truthy (d_date d) | None => false end in
  let c3 := negb (in_history it) in
  ret (c1 && c2 && c3).

Definition due_date : Task (option text) :=
  it <- get_item ;;
  match due it with
  | Some d => ret (d_date d)
  | None => raise AttributeError
  end.

Definition is_due (today : text) : Task bool :=
  d <- due_date ;;
  ret (match d with
       | Some t => negb (text_eqb t today)
       | None => true
       end).

Definition current_streak : Task Z :=
  habit <- get_habit ;;
  match habit with
  | Some m => ret (int_of_digits (group1 m))
  | None => raise AttributeError
  end.

Definition current_goal : Task Z :=
  habit <- get_habit ;;
  match habit with
  | Some m => ret (int_of_digits (group2 m))
  | None => raise AttributeError
  end.

(** ['[day {}/{}]'.format(streak, goal)]; it holds no backslash, so [re.sub]
    takes it as it is. *)
Definition days (streak goal : Z) : text :=
  lit "[day " ++ str_of_Z streak ++ lit "/" ++ str_of_Z goal ++ lit "]".

Definition set_streak (streak goal : Z) : Task unit :=
  it <- get_item ;;
  let text := re_sub (days streak goal) (content it) in
  update_content text.

Definition increase (n : Z) : Task unit :=
  s <- current_streak ;;
  g <- current_goal ;;
  set_streak (s + n) g.

Definition recurrence (today : text) : due_dict :=
  {| d_date := None; d_string := Some (lit "ev day starting " ++ today) |}.

Definition decrease (today : text) : Task unit :=
  s <- current_streak ;;
  let streak := Z.max 0 (s - 1) in
  g <- current_goal ;;
  set_streak streak g ;;;
  update_due (recurrence today).

Definition reset_to_zero (today : text) : Task unit :=
  g <- current_goal ;;
  set_streak 0 g ;;;
  update_due (recurrence today).

Definition habbit_complete : Task bool :=
  s <- current_streak ;;
  g <- current_goal ;;
  ret (g <=? s)%Z.

Definition delete_task : Task unit := delete.

(** ** The evaluation pass *)

(** The body of the loop of [Todoist.update_streak], for one item; [today]
    is the date the client reports during the pass. *)
Definition update_item (today : text) : Task unit :=
  h <- is_habit ;;
  if h then
    d <- is_due today ;;
    if d then reset_to_zero today
    else
      increase 1 ;;;
      c <- habbit_complete ;;
      if c then delete_task else ret tt
  else ret tt.

(** [Todoist.update_streak]: the items in order; what [commit] then sends is
    the queue of each task. *)
Fixpoint update_streak (today : text) (items : list item) : exn + list task :=
  match items with
  | [] => inr []
  | it :: rest =>
      match update_item today (new_task it) with
      | inl e => inl e
      | inr (_, st) =>
          match update_streak today rest with
          | inl e => inl e
          | inr sts => inr (st :: sts)
          end
      end
  end.

(** ** The credential *)

Definition TODOIST_APIKEY : text := lit "TODOIST_APIKEY".

(** [os.getenv]: the value of the first entry for [key], or [None]. *)
Definition getenv (environ : list (text * text)) (key : text) : option text :=
  option_map snd (find (fun kv => text_eqb (fst kv) key) environ).

Inductive failure := Exception (msg : text).

Definition get_token (environ : list (text * text)) : failure + option text :=
  let token := getenv environ TODOIST_APIKEY in
  if negb (truthy token)
  then inl (Exception (lit "Please set the API token in environment variable."))
  else inr token.

(** [Todoist.__init__]: the client is built from the token; [TodoistAPI]
    stands for the client's constructor followed by [sync]. *)
Definition Todoist_init {api : Type} (TodoistAPI : option text -> api)
    (environ : list (text * text)) : failure + api :=
  match get_token environ with
  | inl e => inl e
  | inr token => inr (TodoistAPI token)
  end.

(** ** Scenarios *)

Definition habit_item (c d : string) : item :=
  {| content := lit c;
     due := Some {| d_date := Some (lit d); d_string := Some (lit "every day") |};
     in_history := false |}.
Arguments habit_item (c d)%_string.

Definition scenario_A : item := habit_item "Meditate [day 4/10]" "2024-05-01".
Definition scenario_B : item := habit_item "Meditate [day 9/10]" "2024-05-01".
Definition scenario_D : item := habit_item "Buy milk" "2024-05-01".
Definition two_tokens : item :=
  habit_item "Run [day 1/2] and walk [day 3/4]" "2024-05-01".

(** ** The token grammar, read declaratively *)

Definition step (a : N) (c : ascii) : N := (a * 10 + digit_val c)%N.

(** A run of digits written the way [str] writes a number: not empty, and
    no zero in front unless it is the single digit zero. *)
Definition plain_decimal (ds : text) : Prop :=
  forallb is_digit ds = true /\ ds <> [] /\
  (forall r, ds = "0" :: r -> r = []).

(** [\d+]: one digit or more. *)
Definition digit_run (ds : text) : Prop :=
  ds <> [] /\ forallb is_digit ds = true.

(** The text of a token with white space [w] and the two digit runs. *)
Definition token_text (w : ascii) (d1 d2 : text) : text :=
  "[" :: "d" :: "a" :: "y" :: w :: d1 ++ "/" :: d2 ++ ["]"].

(** [token tok d1 d2]: [tok] is in the language of the pattern, with the
    groups [d1] and [d2]. *)
Inductive token : text -> text -> text -> Prop :=
| token_intro w d1 d2 :
    is_space w = true -> digit_run d1 -> digit_run d2 ->
    token (token_text w d1 d2) d1 d2.

(** Some substring of [s] matches the pattern. *)
Definition contains_token (s : text) : Prop :=
  exists pre tok d1 d2 post, token tok d1 d2 /\ s = pre ++ tok ++ post.

(** ** What the claims speak of *)

(** The streak and the goal that [current_streak] and [current_goal] read
    off a text, when [get_habit] finds a token. *)
Definition parse_token (s : text) : option (Z * Z) :=
  option_map (fun m => (int_of_digits (group1 m), int_of_digits (group2 m)))
             (re_search s).

(** The item has a due date: a [due] dict whose date is a non-empty text. *)
Definition has_due_date (it : item) : Prop :=
  exists d t, due it = Some d /\ d_date d = Some t /\ t <> [].

(** The due date of the item is [t]. *)
Definition due_on (it : item) (t : text) : Prop :=
  exists d, due it = Some d /\ d_date d = Some t /\ t <> [].

(** An active habit: a token, a due date, not archived. *)
Definition active_habit (it : item) : Prop :=
  contains_token (content it) /\ has_due_date it /\ in_history it = false.

(** [rewritten repl s s']: [s'] is [s] with every token, leftmost first,
    replaced by [repl] and everything else copied. *)
Inductive rewritten (repl : text) : text -> text -> Prop :=
| rewritten_none s : ~ contains_token s -> rewritten repl s s
| rewritten_token pre tok d1 d2 post post' :
    token tok d1 d2 ->
    (forall pre1 tok1 e1 e2 post1,
        token tok1 e1 e2 -> pre ++ tok ++ post = pre1 ++ tok1 ++ post1 ->
        length pre <= length pre1) ->
    rewritten repl post post' ->
    rewritten repl (pre ++ tok ++ post) (pre ++ repl ++ post').

(** The four outcomes of the pass for one task, by the changes queued. *)
Inductive outcome := Skip | Reset | Increment | IncrementDelete.

Definition has_outcome (o : outcome) (q : list command) : Prop :=
  match o with
  | Skip => q = []
  | Reset => exists c d, q = [item_update_content c; item_update_due d]
  | Increment => exists c, q = [item_update_content c]
  | IncrementDelete => exists c, q = [item_update_content c; item_delete]
  end.

Definition was_reset (q : list command) : Prop :=
  exists d, In (item_update_due d) q.

Definition was_deleted (q : list command) : Prop := In item_delete q.

(** * Properties *)

(** ** Decimal text *)

Lemma int_of_digits_fold ds : int_of_digits ds = Z.of_N (fold_left step ds 0%N).
Proof. reflexivity. Qed.

Lemma digit_cases (k : N) :
  (k < 10)%N -> In k [0; 1; 2; 3; 4; 5; 6; 7; 8; 9]%N.
Proof. intros H. simpl. lia. Qed.

Ltac each_digit k H :=
  let C := fresh "C" in
  pose proof (digit_cases k H) as C; simpl in C;
  repeat (destruct C as [C | C]; [subst k |]); [.. | contradiction].

Lemma digit_val_char k : (k < 10)%N -> digit_val (digit_char k) = k.
Proof. intros H. each_digit k H; reflexivity. Qed.

Lemma is_digit_char k : (k < 10)%N -> is_digit (digit_char k) = true.
Proof. intros H. each_digit k H; reflexivity. Qed.

Lemma digit_char_nonzero k : (0 < k < 10)%N -> digit_char k <> "0".
Proof.
  intros [H0 H]. each_digit k H; discriminate.
Qed.

Lemma digits_fuel_value f : forall n acc,
  (n < 2 ^ N.of_nat f)%N ->
  fold_left step (digits_fuel f n acc) 0%N = fold_left step acc n.
Proof.
  induction f as [|f IH]; intros n acc Hn.
  - simpl in *. assert (n = 0%N) by lia. subst. reflexivity.
  - cbn [digits_fuel]. destruct (N.ltb_spec n 10) as [Hlt|Hge].
    + simpl. unfold step at 2. rewrite digit_val_char by assumption.
      reflexivity.
    + rewrite IH.
      * simpl. unfold step at 2.
        rewrite digit_val_char by (apply N.mod_lt; lia).
        f_equal. pose proof (N.div_mod n 10). lia.
      * rewrite Nat2N.inj_succ, N.pow_succ_r' in Hn.
        set (P := (2 ^ N.of_nat f)%N) in *.
        apply N.Div0.div_lt_upper_bound. lia.
Qed.

Lemma digits_fuel_digits f : forall n acc,
  forallb is_digit acc = true ->
  forallb is_digit (digits_fuel f n acc) = true.
Proof.
  induction f as [|f IH]; intros n acc Hacc; cbn [digits_fuel]; [assumption|].
  destruct (N.ltb_spec n 10) as [Hlt|Hge].
  - simpl. rewrite is_digit_char by assumption. assumption.
  - apply IH. simpl. rewrite is_digit_char by (apply N.mod_lt; lia).
    assumption.
Qed.

Lemma digits_fuel_head f : forall n acc,
  (n < 2 ^ N.of_nat f)%N -> (0 < n)%N ->
  exists c r, digits_fuel f n acc = c :: r /\ c <> "0".
Proof.
  induction f as [|f IH]; intros n acc Hn Hpos.
  - simpl in Hn. lia.
  - cbn [digits_fuel]. destruct (N.ltb_spec n 10) as [Hlt|Hge].
    + eexists _, _. split; [reflexivity|]. apply digit_char_nonzero. lia.
    + apply IH.
      * rewrite Nat2N.inj_succ, N.pow_succ_r' in Hn.
        set (P := (2 ^ N.of_nat f)%N) in *.
        apply N.Div0.div_lt_upper_bound. lia.
      * apply N.div_str_pos. lia.
Qed.

Lemma digits_fuel_acc f : forall n acc,
  acc <> [] -> digits_fuel f n acc <> [].
Proof.
  induction f as [|f IH]; intros n acc Hacc; cbn [digits_fuel]; [assumption|].
  destruct (n <? 10)%N; [discriminate|]. apply IH. discriminate.
Qed.

Lemma digits_fuel_nonempty f n acc : digits_fuel (S f) n acc <> [].
Proof.
  cbn [digits_fuel]. destruct (n <? 10)%N; [discriminate|].
  apply digits_fuel_acc. discriminate.
Qed.

Lemma str_of_N_fuel n : (n < 2 ^ N.of_nat (S (N.to_nat (N.size n))))%N.
Proof.
  rewrite Nat2N.inj_succ, N2Nat.id, N.pow_succ_r'.
  pose proof (N.size_gt n). lia.
Qed.

Lemma str_of_N_plain n : plain_decimal (str_of_N n).
Proof.
  unfold plain_decimal, str_of_N. repeat split.
  - apply digits_fuel_digits. reflexivity.
  - apply digits_fuel_nonempty.
  - intros r E. destruct (N.eq_dec n 0) as [->|Hn].
    + vm_compute in E. congruence.
    + destruct (digits_fuel_head _ n [] (str_of_N_fuel n)) as (c & r' & E' & Hc);
        [lia|].
      rewrite E' in E. congruence.
Qed.

Lemma str_of_Z_nonneg z : (0 <= z)%Z -> str_of_Z z = str_of_N (Z.to_N z).
Proof.
  intros H. unfold str_of_Z. destruct (Z.ltb_spec z 0); [lia | reflexivity].
Qed.

Lemma int_of_str_of_N n : int_of_digits (str_of_N n) = Z.of_N n.
Proof.
  rewrite int_of_digits_fold. unfold str_of_N.
  rewrite digits_fuel_value by apply str_of_N_fuel. reflexivity.
Qed.

Lemma int_of_str z : (0 <= z)%Z -> int_of_digits (str_of_Z z) = z.
Proof.
  intros H. rewrite str_of_Z_nonneg, int_of_str_of_N by assumption.
  apply Z2N.id. assumption.
Qed.

Lemma str_of_Z_plain z : (0 <= z)%Z -> plain_decimal (str_of_Z z).
Proof.
  intros H. rewrite str_of_Z_nonneg by assumption. apply str_of_N_plain.
Qed.

Lemma plain_decimal_run ds : plain_decimal ds -> digit_run ds.
Proof. intros (D & N & _). split; assumption. Qed.

(** ** The matcher against the grammar *)

Ltac break_match :=
  repeat match goal with
         | |- context [match ?x with _ => _ end] =>
             let E := fresh "E" in destruct x eqn:E; try discriminate
         end.

Lemma span_digits_split s : forall ds r,
  span_digits s = (ds, r) ->
  s = ds ++ r /\ forallb is_digit ds = true /\
  match r with c :: _ => is_digit c = false | [] => True end.
Proof.
  induction s as [|c s IH]; intros ds r; simpl.
  - intros [= <- <-]. auto.
  - destruct (is_digit c) eqn:D.
    + destruct (span_digits s) as [ds' r'] eqn:S.
      intros [= <- <-]. destruct (IH _ _ eq_refl) as (-> & F & R).
      simpl. rewrite D, F. auto.
    + intros [= <- <-]. simpl. auto.
Qed.

Lemma span_digits_run ds : forall r,
  forallb is_digit ds = true ->
  match r with c :: _ => is_digit c = false | [] => True end ->
  span_digits (ds ++ r) = (ds, r).
Proof.
  induction ds as [|c ds IH]; intros r F R; simpl in *.
  - destruct r as [|c r]; [reflexivity|]. simpl. rewrite R. reflexivity.
  - apply andb_prop in F. destruct F as [D F].
    rewrite D, (IH r F R). reflexivity.
Qed.

Lemma token_text_app w d1 d2 r :
  token_text w d1 d2 ++ r
  = "[" :: "d" :: "a" :: "y" :: w :: d1 ++ "/" :: d2 ++ "]" :: r.
Proof.
  unfold token_text. simpl. rewrite <- app_assoc. simpl.
  rewrite <- app_assoc. reflexivity.
Qed.

Lemma match_here_sound s d1 d2 r :
  match_here s = Some (d1, d2, r) ->
  exists w, is_space w = true /\ digit_run d1 /\ digit_run d2 /\
            s = token_text w d1 d2 ++ r.
Proof.
  unfold match_here. break_match. intros [= <- <- <-].
  repeat match goal with
         | H : span_digits _ = _ |- _ => apply span_digits_split in H
         end.
  repeat match goal with H : _ /\ _ |- _ => destruct H end. subst.
  eexists. split; [eassumption|].
  rewrite token_text_app. repeat split; solve [discriminate | assumption | reflexivity].
Qed.

Lemma match_here_complete w d1 d2 r :
  is_space w = true -> digit_run d1 -> digit_run d2 ->
  match_here (token_text w d1 d2 ++ r) = Some (d1, d2, r).
Proof.
  intros W [N1 F1] [N2 F2]. rewrite token_text_app.
  unfold match_here. rewrite W.
  rewrite (span_digits_run d1) by (assumption || reflexivity).
  destruct d1 as [|a d1]; [contradiction|].
  rewrite (span_digits_run d2) by (assumption || reflexivity).
  destruct d2 as [|b d2]; [contradiction|]. reflexivity.
Qed.

(** ** [re.search] and [re.sub] *)

Lemma re_search_cons c s :
  re_search (c :: s)
  = match match_here (c :: s) with
    | Some (d1, d2, r) =>
        Some {| m_pre := []; group1 := d1; group2 := d2; m_post := r |}
    | None => option_map (shift c) (re_search s)
    end.
Proof. reflexivity. Qed.

Lemma re_sub_cons repl c s :
  re_sub repl (c :: s)
  = match match_here (c :: s) with
    | Some (_, _, r) => repl ++ re_sub repl r
    | None => c :: re_sub repl s
    end.
Proof.
  simp re_sub. unfold inspect.
  generalize (@eq_refl _ (match_here (c :: s))).
  generalize (match_here (c :: s)) at 2 4 5.
  intros [[[d1 d2] r]|] E; reflexivity.
Qed.

Lemma re_search_split s : forall m,
  re_search s = Some m ->
  exists w, is_space w = true /\ digit_run (group1 m) /\ digit_run (group2 m) /\
            s = m_pre m ++ token_text w (group1 m) (group2 m) ++ m_post m.
Proof.
  induction s as [|c s IH]; intros m; [discriminate|].
  rewrite re_search_cons.
  destruct (match_here (c :: s)) as [[[d1 d2] r]|] eqn:E.
  - intros [= <-]. simpl. apply match_here_sound. assumption.
  - destruct (re_search s) as [m'|]; [|discriminate].
    intros [= <-]. destruct (IH _ eq_refl) as (w & W & R1 & R2 & ->).
    exists w. simpl. auto.
Qed.

Lemma token_nonempty tok d1 d2 : token tok d1 d2 -> tok <> [].
Proof. intros []. discriminate. Qed.

(** The match [re.search] returns is the leftmost one. *)
Lemma re_search_leftmost s : forall m pre tok d1 d2 post,
  re_search s = Some m -> token tok d1 d2 -> s = pre ++ tok ++ post ->
  length (m_pre m) <= length pre.
Proof.
  induction s as [|c s IH]; intros m pre tok d1 d2 post; [discriminate|].
  rewrite re_search_cons.
  destruct (match_here (c :: s)) as [[[e1 e2] r]|] eqn:E.
  - intros [= <-]. simpl. lia.
  - destruct (re_search s) as [m'|] eqn:S; [|discriminate].
    intros [= <-] T Hs. destruct pre as [|a pre].
    + destruct T as [w d1 d2 W R1 R2]. rewrite app_nil_l in Hs. rewrite Hs in E.
      rewrite match_here_complete in E by assumption. discriminate.
    + injection Hs as -> Hs. simpl.
      specialize (IH _ _ _ _ _ _ eq_refl T Hs). lia.
Qed.

Lemma re_search_none s : re_search s = None <-> ~ contains_token s.
Proof.
  split.
  - induction s as [|c s IH]; intros N (pre & tok & d1 & d2 & post & T & Hs).
    + apply token_nonempty in T. destruct pre, tok; try discriminate.
      contradiction.
    + rewrite re_search_cons in N.
      destruct (match_here (c :: s)) as [[[e1 e2] r]|] eqn:E; [discriminate|].
      destruct pre as [|a pre].
      * destruct T as [w d1 d2 W R1 R2]. rewrite app_nil_l in Hs. rewrite Hs in E.
        rewrite match_here_complete in E by assumption. discriminate.
      * injection Hs as -> Hs. apply IH.
        -- destruct (re_search s); [discriminate | reflexivity].
        -- exists pre, tok, d1, d2, post. auto.
  - intros N. destruct (re_search s) as [m|] eqn:S; [|reflexivity].
    exfalso. apply N.
    destruct (re_search_split _ _ S) as (w & W & R1 & R2 & Hs).
    exists (m_pre m), (token_text w (group1 m) (group2 m)),
      (group1 m), (group2 m), (m_post m).
    split; [constructor; assumption | assumption].
Qed.

(** [re.sub] rewrites the leftmost match and goes on after it. *)
Lemma re_sub_search repl s :
  re_sub repl s
  = match re_search s with
    | Some m => m_pre m ++ repl ++ re_sub repl (m_post m)
    | None => s
    end.
Proof.
  induction s as [|c s IH]; [reflexivity|].
  rewrite re_sub_cons, re_search_cons.
  destruct (match_here (c :: s)) as [[[d1 d2] r]|]; [reflexivity|].
  rewrite IH. destruct (re_search s); reflexivity.
Qed.

Lemma token_tail_no_bracket w d1 d2 :
  is_space w = true -> digit_run d1 -> digit_run d2 ->
  ~ In "[" (tl (token_text w d1 d2)).
Proof.
  intros W [_ F1] [_ F2]. unfold token_text. simpl.
  rewrite forallb_forall in F1, F2.
  intros [H|[H|[H|[H|H]]]]; try discriminate.
  - subst w. discriminate.
  - apply in_app_or in H. destruct H as [H|[H|H]]; try discriminate.
    + apply F1 in H. discriminate.
    + apply in_app_or in H. destruct H as [H|[H|[]]]; try discriminate.
      apply F2 in H. discriminate.
Qed.

(** A match that starts before an opening bracket ends before it. *)
Lemma match_here_before_bracket q x d1 d2 r :
  q <> [] -> match_here (q ++ "[" :: x) = Some (d1, d2, r) ->
  exists l, forall y, match_here (q ++ y) = Some (d1, d2, l ++ y).
Proof.
  intros Q M. apply match_here_sound in M.
  destruct M as (w & W & R1 & R2 & E).
  apply app_eq_app in E. destruct E as (l & [[-> _] | [E1 E2]]).
  - exists l. intros y. rewrite <- app_assoc.
    apply match_here_complete; assumption.
  - destruct l as [|a l].
    + exists []. intros y. rewrite app_nil_r in E1. rewrite <- E1.
      apply match_here_complete; assumption.
    + exfalso. injection E2 as <- _.
      apply (token_tail_no_bracket w d1 d2 W R1 R2).
      rewrite E1. destruct q as [|b q]; [contradiction|].
      simpl. apply in_or_app. right. left. reflexivity.
Qed.

(** After the leftmost token is rewritten, the search finds the new token
    at the same place. *)
Lemma re_search_replaced s : forall m D1 D2 R,
  re_search s = Some m -> digit_run D1 -> digit_run D2 ->
  re_search (m_pre m ++ token_text " " D1 D2 ++ R)
  = Some {| m_pre := m_pre m; group1 := D1; group2 := D2; m_post := R |}.
Proof.
  induction s as [|c s IH]; intros m D1 D2 R; [discriminate|].
  rewrite re_search_cons.
  destruct (match_here (c :: s)) as [[[d1 d2] r]|] eqn:E.
  - intros [= <-] R1 R2. cbn [m_pre app].
    change (token_text " " D1 D2 ++ R)
      with ("[" :: tl (token_text " " D1 D2 ++ R)) at 1.
    rewrite re_search_cons.
    change ("[" :: tl (token_text " " D1 D2 ++ R))
      with (token_text " " D1 D2 ++ R).
    rewrite match_here_complete by (assumption || reflexivity). reflexivity.
  - destruct (re_search s) as [m'|] eqn:S; [|discriminate].
    intros [= <-] R1 R2. cbn [m_pre shift app].
    rewrite re_search_cons.
    destruct (match_here (c :: m_pre m' ++ token_text " " D1 D2 ++ R))
      as [[[e1 e2] r]|] eqn:E'.
    + exfalso.
      change (c :: m_pre m' ++ token_text " " D1 D2 ++ R)
        with ((c :: m_pre m') ++ "[" :: tl (token_text " " D1 D2 ++ R)) in E'.
      apply match_here_before_bracket in E'; [|discriminate].
      destruct E' as [l E'].
      destruct (re_search_split _ _ S) as (w & _ & _ & _ & Hs).
      specialize (E' (token_text w (group1 m') (group2 m') ++ m_post m')).
      rewrite <- app_comm_cons, <- Hs in E'. congruence.
    + rewrite (IH _ _ _ _ eq_refl R1 R2). reflexivity.
Qed.

Lemma days_token streak goal :
  days streak goal = token_text " " (str_of_Z streak) (str_of_Z goal).
Proof. reflexivity. Qed.

(** ** Reading and writing the token *)

Lemma int_of_digits_nonneg ds : (0 <= int_of_digits ds)%Z.
Proof. unfold int_of_digits. lia. Qed.

Lemma contains_token_search s :
  contains_token s -> exists m, re_search s = Some m.
Proof.
  intros C. destruct (re_search s) as [m|] eqn:S; [eauto|].
  apply re_search_none in S. contradiction.
Qed.

Lemma parse_token_some s :
  contains_token s <-> exists sg, parse_token s = Some sg.
Proof.
  unfold parse_token. split.
  - intros C. destruct (contains_token_search _ C) as [m ->]. simpl. eauto.
  - intros [sg P]. destruct (re_search s) eqn:S; [|discriminate].
    destruct (re_search_none s) as [_ N].
    destruct (re_search_split _ _ S) as (w & W & R1 & R2 & Hs).
    exists (m_pre r), (token_text w (group1 r) (group2 r)),
      (group1 r), (group2 r), (m_post r).
    split; [constructor; assumption | assumption].
Qed.

Lemma parse_token_nonneg s a b :
  parse_token s = Some (a, b) -> (0 <= a)%Z /\ (0 <= b)%Z.
Proof.
  unfold parse_token. destruct (re_search s); [|discriminate].
  intros [= <- <-]. split; apply int_of_digits_nonneg.
Qed.

(** Round trip on texts. *)
Lemma parse_token_re_sub s streak goal :
  contains_token s -> (0 <= streak)%Z -> (0 <= goal)%Z ->
  parse_token (re_sub (days streak goal) s) = Some (streak, goal).
Proof.
  intros C Hs Hg. destruct (contains_token_search _ C) as [m S].
  rewrite re_sub_search, S, days_token. unfold parse_token.
  rewrite (re_search_replaced s m) by
    (assumption || (apply plain_decimal_run, str_of_Z_plain; assumption)).
  simpl. rewrite !int_of_str by assumption. reflexivity.
Qed.

Lemma re_sub_rewritten repl s : rewritten repl s (re_sub repl s).
Proof.
  remember (length s) as n eqn:L. revert s L.
  induction n as [n IH] using lt_wf_ind. intros s ->.
  rewrite re_sub_search. destruct (re_search s) as [m|] eqn:S.
  - destruct (re_search_split _ _ S) as (w & W & R1 & R2 & Hs).
    rewrite Hs at 1.
    apply rewritten_token with (d1 := group1 m) (d2 := group2 m).
    + constructor; assumption.
    + intros pre1 tok1 e1 e2 post1 T E. rewrite <- Hs in E.
      eapply re_search_leftmost; eassumption.
    + apply (IH (length (m_post m))); [|reflexivity].
      rewrite Hs, !length_app. unfold token_text. simpl. lia.
  - apply rewritten_none. apply re_search_none. assumption.
Qed.

Lemma re_sub_no_token repl s : ~ contains_token s -> re_sub repl s = s.
Proof.
  intros N. apply re_search_none in N. rewrite re_sub_search, N. reflexivity.
Qed.

(** ** The methods, run *)

Ltac unfold_task :=
  unfold update_item, is_habit, is_due, due_date, reset_to_zero, increase,
    decrease, habbit_complete, delete_task, delete, current_streak,
    current_goal, set_streak, get_habit, get_item, update_content,
    update_due, bind, ret, raise;
  cbv beta; cbn [task_item queue new_task app].

Lemma is_habit_run st :
  is_habit st
  = inr ((match re_search (content (task_item st)) with
          | Some _ => true | None => false end)
         && (match due (task_item st) with
             | Some d => truthy (d_date d) | None => false end)
         && negb (in_history (task_item st)), st).
Proof. reflexivity. Qed.

Lemma truthy_true o : truthy o = true <-> exists t, o = Some t /\ t <> [].
Proof.
  split.
  - destruct o as [[|c t]|]; try discriminate. intros _. eexists.
    split; [reflexivity | discriminate].
  - intros (t & -> & N). destruct t; [contradiction | reflexivity].
Qed.

Lemma is_habit_active st :
  is_habit st = inr (true, st) <-> active_habit (task_item st).
Proof.
  rewrite is_habit_run. unfold active_habit, has_due_date.
  destruct (re_search (content (task_item st))) as [m|] eqn:S.
  - assert (C : contains_token (content (task_item st))).
    { apply parse_token_some. unfold parse_token. rewrite S. simpl. eauto. }
    destruct (due (task_item st)) as [d|]; simpl.
    + destruct (truthy (d_date d)) eqn:T; simpl.
      * apply truthy_true in T. destruct T as (t & T & N).
        destruct (in_history (task_item st)); simpl;
          split; try discriminate; try tauto.
        -- intros (_ & _ & [=]).
        -- intros _. repeat split; eauto.
      * split; [discriminate|]. intros (_ & (d' & t & [= <-] & D & N) & _).
        assert (truthy (d_date d) = true) by (apply truthy_true; eauto).
        congruence.
    + split; [discriminate|]. intros (_ & (d' & t & [=] & _) & _).
  - simpl. split; [discriminate|]. intros (C & _).
    apply re_search_none in S. contradiction.
Qed.

Lemma is_habit_total st : exists b, is_habit st = inr (b, st).
Proof. rewrite is_habit_run. eauto. Qed.

Lemma is_habit_inactive st :
  ~ active_habit (task_item st) -> is_habit st = inr (false, st).
Proof.
  intros N. destruct (is_habit_total st) as [[|] E]; [|assumption].
  apply is_habit_active in E. contradiction.
Qed.

Lemma current_streak_run st :
  current_streak st
  = match parse_token (content (task_item st)) with
    | Some (s, _) => inr (s, st)
    | None => inl AttributeError
    end.
Proof.
  unfold_task. unfold parse_token.
  destruct (re_search (content (task_item st))); reflexivity.
Qed.

Lemma current_goal_run st :
  current_goal st
  = match parse_token (content (task_item st)) with
    | Some (_, g) => inr (g, st)
    | None => inl AttributeError
    end.
Proof.
  unfold_task. unfold parse_token.
  destruct (re_search (content (task_item st))); reflexivity.
Qed.

Lemma set_streak_run streak goal st :
  set_streak streak goal st
  = inr (tt, {| task_item :=
                  set_content (re_sub (days streak goal) (content (task_item st)))
                              (task_item st);
                queue := queue st ++
                  [item_update_content
                     (re_sub (days streak goal) (content (task_item st)))] |}).
Proof. reflexivity. Qed.

Lemma habbit_complete_run st :
  habbit_complete st
  = match parse_token (content (task_item st)) with
    | Some (s, g) => inr ((g <=? s)%Z, st)
    | None => inl AttributeError
    end.
Proof.
  unfold_task. unfold parse_token.
  destruct (re_search (content (task_item st))) eqn:E; cbv beta iota;
    rewrite ?E; reflexivity.
Qed.

Lemma text_eqb_eq a b : text_eqb a b = true <-> a = b.
Proof.
  unfold text_eqb. destruct (list_eq_dec ascii_dec a b); split;
    congruence.
Qed.

Lemma is_due_run today st t :
  due_on (task_item st) t ->
  is_due today st = inr (negb (text_eqb t today), st).
Proof.
  intros (d & D & T & _). unfold_task. rewrite D. cbn. rewrite T. reflexivity.
Qed.

(** ** The loop body, case by case *)

Lemma update_item_skip today it :
  ~ active_habit it -> update_item today (new_task it) = inr (tt, new_task it).
Proof.
  intros N. unfold update_item, bind.
  rewrite is_habit_inactive by assumption. reflexivity.
Qed.

Lemma active_habit_intro it s g t :
  parse_token (content it) = Some (s, g) -> due_on it t ->
  in_history it = false -> active_habit it.
Proof.
  intros P (d & D & T & N) H. repeat split.
  - apply parse_token_some. eauto.
  - exists d, t. auto.
  - assumption.
Qed.

Lemma update_item_reset today it s g t :
  parse_token (content it) = Some (s, g) -> due_on it t ->
  in_history it = false -> t <> today ->
  update_item today (new_task it)
  = inr (tt,
         {| task_item :=
              set_due (recurrence today)
                (set_content (re_sub (days 0 g) (content it)) it);
            queue := [item_update_content (re_sub (days 0 g) (content it));
                      item_update_due (recurrence today)] |}).
Proof.
  intros P D H N. pose proof (active_habit_intro _ _ _ _ P D H) as A.
  unfold update_item, bind.
  rewrite (proj2 (is_habit_active (new_task it)) A).
  rewrite (is_due_run today (new_task it) t D).
  destruct (text_eqb t today) eqn:E; [apply text_eqb_eq in E; contradiction|].
  cbn [negb]. unfold reset_to_zero, bind.
  rewrite current_goal_run. cbn [new_task task_item]. rewrite P.
  reflexivity.
Qed.

Lemma update_item_increase today it s g :
  parse_token (content it) = Some (s, g) -> due_on it today ->
  in_history it = false ->
  update_item today (new_task it)
  = inr (tt,
         {| task_item := set_content (re_sub (days (s + 1) g) (content it)) it;
            queue := item_update_content (re_sub (days (s + 1) g) (content it))
                     :: (if (g <=? s + 1)%Z then [item_delete] else []) |}).
Proof.
  intros P D H. pose proof (active_habit_intro _ _ _ _ P D H) as A.
  destruct (parse_token_nonneg _ _ _ P) as [Hs Hg].
  unfold update_item, bind.
  rewrite (proj2 (is_habit_active (new_task it)) A).
  rewrite (is_due_run today (new_task it) today D).
  rewrite (proj2 (text_eqb_eq today today) eq_refl). cbn [negb].
  unfold increase, bind.
  rewrite current_streak_run. cbn [new_task task_item]. rewrite P.
  rewrite current_goal_run. cbn [new_task task_item]. rewrite P.
  rewrite set_streak_run, habbit_complete_run.
  cbn [task_item set_content content queue new_task app].
  rewrite parse_token_re_sub by (lia || (apply parse_token_some; eauto)).
  unfold delete_task, delete, ret. cbn [task_item queue app].
  destruct (g <=? s + 1)%Z; reflexivity.
Qed.

(** The loop body never raises. *)
Lemma update_item_total today it :
  exists st, update_item today (new_task it) = inr (tt, st).
Proof.
  destruct (is_habit_total (new_task it)) as [[|] E].
  - apply is_habit_active in E. cbn [new_task task_item] in E.
    destruct E as (C & (d & t & D & T & N) & H).
    apply parse_token_some in C. destruct C as [[s g] P].
    assert (due_on it t) by (exists d; auto).
    destruct (list_eq_dec ascii_dec t today) as [->|Ne].
    + rewrite (update_item_increase today it s g) by assumption.
      eexists. reflexivity.
    + rewrite (update_item_reset today it s g t) by assumption.
      eexists. reflexivity.
  - unfold update_item, bind. rewrite E. eexists. reflexivity.
Qed.

(** The pass treats every item by the loop body, in order, and does not
    raise. *)
Lemma update_streak_total today items :
  exists sts,
    update_streak today items = inr sts /\
    Forall2 (fun it st => update_item today (new_task it) = inr (tt, st))
            items sts.
Proof.
  induction items as [|it items (sts & E & F)]; simpl.
  - eauto.
  - destruct (update_item_total today it) as [st U]. rewrite U, E.
    eexists. split; [reflexivity|]. constructor; assumption.
Qed.

Lemma Forall2_nth {A B} (R : A -> B -> Prop) l l' :
  Forall2 R l l' -> forall i a,
  nth_error l i = Some a -> exists b, nth_error l' i = Some b /\ R a b.
Proof.
  induction 1 as [|x y l l' U F IH]; intros [|i] a Hn; try discriminate.
  - injection Hn as ->. exists y. auto.
  - apply (IH i a Hn).
Qed.

Lemma update_streak_nth today items i it :
  nth_error items i = Some it ->
  exists sts st,
    update_streak today items = inr sts /\ nth_error sts i = Some st /\
    update_item today (new_task it) = inr (tt, st).
Proof.
  destruct (update_streak_total today items) as (sts & E & F).
  intros Hn. destruct (Forall2_nth _ _ _ F i it Hn) as (st & N & U).
  exists sts, st. auto.
Qed.

Lemma update_item_cases today it :
  ~ active_habit it \/
  (exists s g t, parse_token (content it) = Some (s, g) /\ due_on it t /\
                 in_history it = false /\ t <> today) \/
  (exists s g, parse_token (content it) = Some (s, g) /\ due_on it today /\
               in_history it = false).
Proof.
  destruct (is_habit_total (new_task it)) as [[|] E].
  - apply is_habit_active in E. cbn [new_task task_item] in E.
    destruct E as (C & (d & t & D & T & N) & H).
    apply parse_token_some in C. destruct C as [[s g] P].
    assert (due_on it t) by (exists d; auto).
    destruct (list_eq_dec ascii_dec t today) as [->|Ne].
    + right. right. exists s, g. auto.
    + right. left. exists s, g, t. auto.
  - left. intros A. apply (is_habit_active (new_task it)) in A. congruence.
Qed.

Ltac outcome_unique :=
  let O := fresh "O" in
  intros [] O; simpl in O; try reflexivity;
  repeat match type of O with ex _ => destruct O as [? O] end;
  discriminate.

Lemma update_item_outcome today it st :
  update_item today (new_task it) = inr (tt, st) ->
  (exists o, has_outcome o (queue st) /\
             forall o', has_outcome o' (queue st) -> o' = o) /\
  ~ (was_reset (queue st) /\ was_deleted (queue st)).
Proof.
  destruct (update_item_cases today it)
    as [N | [(s & g & t & P & D & H & Ne) | (s & g & P & D & H)]].
  - rewrite update_item_skip by assumption. intros [= <-]. simpl. split.
    + exists Skip. split; [reflexivity|].
      outcome_unique.
    + intros [[d []] _].
  - rewrite (update_item_reset today it s g t) by assumption.
    intros [= <-]. cbn [queue]. split.
    + exists Reset. split; [simpl; eauto|].
      outcome_unique.
    + intros [_ [Q|[Q|[]]]]; discriminate.
  - rewrite (update_item_increase today it s g) by assumption.
    intros [= <-]. cbn [queue]. destruct (g <=? s + 1)%Z; split.
    + exists IncrementDelete. split; [simpl; eauto|].
      outcome_unique.
    + intros [[d [Q|[Q|[]]]] _]; discriminate.
    + exists Increment. split; [simpl; eauto|].
      outcome_unique.
    + intros [[d [Q|[]]] _]; discriminate.
Qed.

(** ** The scenarios of the specification *)

Example re_sub_ex :
  re_sub (lit "X") (lit "a [day 1/2] b [day 30/4]c") = lit "a X b Xc".
Proof. reflexivity. Qed.

Example scenario_A_today :
  update_streak (lit "2024-05-01") [scenario_A]
  = inr [{| task_item := set_content (lit "Meditate [day 5/10]") scenario_A;
            queue := [item_update_content (lit "Meditate [day 5/10]")] |}].
Proof. reflexivity. Qed.

Example scenario_B_today :
  update_streak (lit "2024-05-01") [scenario_B]
  = inr [{| task_item := set_content (lit "Meditate [day 10/10]") scenario_B;
            queue := [item_update_content (lit "Meditate [day 10/10]");
                      item_delete] |}].
Proof. reflexivity. Qed.

Example scenario_C_next_day :
  update_streak (lit "2024-05-02") [scenario_A]
  = inr [{| task_item :=
              set_due (recurrence (lit "2024-05-02"))
                (set_content (lit "Meditate [day 0/10]") scenario_A);
            queue := [item_update_content (lit "Meditate [day 0/10]");
                      item_update_due (recurrence (lit "2024-05-02"))] |}].
Proof. reflexivity. Qed.

Example scenario_D_skipped :
  update_streak (lit "2024-05-01") [scenario_D] = inr [new_task scenario_D].
Proof. reflexivity. Qed.

(** * The claims *)

(** C1: in one pass, an active habit whose due date is today and whose text
    reads streak [s] and goal [g] has its tokens rewritten to
    [[day s+1/g]], and the delete is queued exactly when [s + 1 >= g]; with
    [s = g - 1] the text then reads [[day g/g]] and the task is deleted. *)
Theorem evaluate_due_today today items i it s g :
  nth_error items i = Some it ->
  parse_token (content it) = Some (s, g) ->
  due_on it today -> in_history it = false ->
  exists sts st,
    update_streak today items = inr sts /\ nth_error sts i = Some st /\
    rewritten (days (s + 1) g) (content it) (content (task_item st)) /\
    parse_token (content (task_item st)) = Some (s + 1, g)%Z /\
    (was_deleted (queue st) <-> (s + 1 >= g)%Z) /\
    (s = (g - 1)%Z ->
     rewritten (days g g) (content it) (content (task_item st)) /\
     parse_token (content (task_item st)) = Some (g, g) /\
     was_deleted (queue st)).
Proof.
  intros Hn P D H.
  destruct (update_streak_nth today items i it Hn) as (sts & st & E & N & U).
  exists sts, st. split; [assumption|]. split; [assumption|].
  rewrite (update_item_increase today it s g) in U by assumption.
  injection U as <-. cbn [task_item queue set_content content].
  destruct (parse_token_nonneg _ _ _ P) as [Hs Hg].
  assert (C : contains_token (content it)) by (apply parse_token_some; eauto).
  assert (Del : was_deleted
                  (item_update_content (re_sub (days (s + 1) g) (content it))
                   :: (if (g <=? s + 1)%Z then [item_delete] else []))
                <-> (s + 1 >= g)%Z).
  { unfold was_deleted. destruct (Z.leb_spec g (s + 1)); simpl; split.
    - lia.
    - auto.
    - intros [Q|[]]. discriminate.
    - lia. }
  split; [apply re_sub_rewritten|].
  split; [apply parse_token_re_sub; (assumption || lia)|].
  split; [exact Del|].
  intros ->. replace (g - 1 + 1)%Z with g in * by lia.
  split; [apply re_sub_rewritten|].
  split; [apply parse_token_re_sub; assumption|].
  apply Del. lia.
Qed.

Lemma evaluate_due_today_witness :
  exists sts st,
    update_streak (lit "2024-05-01") [scenario_A; scenario_B] = inr sts /\
    nth_error sts 1 = Some st /\
    parse_token (content (task_item st)) = Some (10, 10)%Z /\
    was_deleted (queue st).
Proof.
  destruct (evaluate_due_today (lit "2024-05-01") [scenario_A; scenario_B] 1
              scenario_B 9 10)
    as (sts & st & E & N & _ & _ & _ & T).
  - reflexivity.
  - reflexivity.
  - eexists. repeat split; try reflexivity. discriminate.
  - reflexivity.
  - exists sts, st. destruct (T eq_refl) as (_ & P & Del). auto.
Defined.

(** C2, as the code has it: in one pass, an active habit whose due date is
    not today has its tokens rewritten to [[day 0/g]] with the goal [g]
    kept, its due set to the recurrence text "ev day starting {today}", and
    is not deleted. *)
Theorem evaluate_lapsed today items i it s g t :
  nth_error items i = Some it ->
  parse_token (content it) = Some (s, g) ->
  due_on it t -> t <> today -> in_history it = false ->
  exists sts st,
    update_streak today items = inr sts /\ nth_error sts i = Some st /\
    rewritten (days 0 g) (content it) (content (task_item st)) /\
    parse_token (content (task_item st)) = Some (0, g)%Z /\
    due (task_item st)
    = Some {| d_date := None;
              d_string := Some (lit "ev day starting " ++ today) |} /\
    queue st = [item_update_content (content (task_item st));
                item_update_due
                  {| d_date := None;
                     d_string := Some (lit "ev day starting " ++ today) |}] /\
    ~ was_deleted (queue st).
Proof.
  intros Hn P D Ne H.
  destruct (update_streak_nth today items i it Hn) as (sts & st & E & N & U).
  exists sts, st. split; [assumption|]. split; [assumption|].
  rewrite (update_item_reset today it s g t) in U by assumption.
  injection U as <-. cbn [task_item queue set_content set_due content due].
  destruct (parse_token_nonneg _ _ _ P) as [Hs Hg].
  assert (C : contains_token (content it)) by (apply parse_token_some; eauto).
  split; [apply re_sub_rewritten|].
  split; [apply parse_token_re_sub; (assumption || lia)|].
  split; [reflexivity|]. split; [reflexivity|].
  intros [Q|[Q|[]]]; discriminate.
Qed.

Lemma evaluate_lapsed_witness :
  exists sts st,
    update_streak (lit "2024-05-02") [scenario_A] = inr sts /\
    nth_error sts 0 = Some st /\
    parse_token (content (task_item st)) = Some (0, 10)%Z.
Proof.
  destruct (evaluate_lapsed (lit "2024-05-02") [scenario_A] 0 scenario_A 4 10
              (lit "2024-05-01"))
    as (sts & st & E & N & _ & P & _).
  - reflexivity.
  - reflexivity.
  - eexists. repeat split; try reflexivity. discriminate.
  - discriminate.
  - reflexivity.
  - exists sts, st. auto.
Defined.

(** C2 as stated fails: for "Meditate [day 4/10]", due 2024-05-01, on
    2024-05-02 the due string written is "ev day starting 2024-05-02", not
    "every day starting 2024-05-02". *)
Lemma evaluate_lapsed_due_string :
  exists st d,
    update_streak (lit "2024-05-02") [scenario_A] = inr [st] /\
    due (task_item st) = Some d /\
    d_string d = Some (lit "ev day starting 2024-05-02") /\
    d_string d <> Some (lit "every day starting 2024-05-02").
Proof.
  eexists. eexists. split; [reflexivity|]. split; [reflexivity|].
  split; [reflexivity | discriminate].
Qed.

(** C3, as the code has it: on a text with one token or more, [set_streak]
    replaces every substring that matches the token grammar, leftmost first
    and not only the first one, with [[day streak/goal]], and copies every
    other character of the text; the other fields of the item stay. *)
Theorem set_streak_rewrites_every_token st streak goal :
  contains_token (content (task_item st)) ->
  exists st',
    set_streak streak goal st = inr (tt, st') /\
    rewritten (days streak goal)
              (content (task_item st)) (content (task_item st')) /\
    due (task_item st') = due (task_item st) /\
    in_history (task_item st') = in_history (task_item st).
Proof.
  intros _. rewrite set_streak_run. eexists. split; [reflexivity|].
  cbn [task_item set_content content due in_history].
  split; [apply re_sub_rewritten | split; reflexivity].
Qed.

Lemma set_streak_rewrites_every_token_witness :
  exists st',
    set_streak 5 6 (new_task two_tokens) = inr (tt, st') /\
    rewritten (days 5 6) (content two_tokens) (content (task_item st')).
Proof.
  destruct (set_streak_rewrites_every_token (new_task two_tokens) 5 6)
    as (st' & E & R & _).
  - exists (lit "Run "), (token_text " " (lit "1") (lit "2")),
      (lit "1"), (lit "2"), (lit " and walk [day 3/4]").
    split; [|reflexivity].
    constructor; [reflexivity | split; [discriminate | reflexivity] ..].
  - exists st'. auto.
Defined.

(** C3 as stated fails: in "Run [day 1/2] and walk [day 3/4]" the first
    match is "[day 1/2]", and [set_streak 5 6] rewrites the later token
    too. *)
Lemma set_streak_later_token_rewritten :
  exists m st',
    re_search (content two_tokens) = Some m /\
    m_pre m = lit "Run " /\ m_post m = lit " and walk [day 3/4]" /\
    set_streak 5 6 (new_task two_tokens) = inr (tt, st') /\
    content (task_item st') = lit "Run [day 5/6] and walk [day 5/6]" /\
    content (task_item st') <> m_pre m ++ days 5 6 ++ m_post m.
Proof.
  eexists. eexists. split; [reflexivity|]. split; [reflexivity|].
  split; [reflexivity|]. split; [apply set_streak_run|].
  split; [reflexivity | discriminate].
Qed.

(** C4: on a text with a token, for [streak >= 0] and [goal >= 0], after
    [set_streak streak goal] the task reads back exactly [streak] and
    [goal]; the token written is "[day ", the two numbers in plain decimal
    (no sign, no padding, no zero in front) around "/", and "]". *)
Theorem set_streak_round_trip st streak goal :
  contains_token (content (task_item st)) ->
  (0 <= streak)%Z -> (0 <= goal)%Z ->
  exists st',
    set_streak streak goal st = inr (tt, st') /\
    current_streak st' = inr (streak, st') /\
    current_goal st' = inr (goal, st') /\
    parse_token (content (task_item st')) = Some (streak, goal) /\
    rewritten (lit "[day " ++ str_of_Z streak ++ lit "/" ++ str_of_Z goal
                 ++ lit "]")
              (content (task_item st)) (content (task_item st')) /\
    plain_decimal (str_of_Z streak) /\ plain_decimal (str_of_Z goal).
Proof.
  intros C Hs Hg. rewrite set_streak_run. eexists. split; [reflexivity|].
  rewrite current_streak_run, current_goal_run.
  cbn [task_item set_content content].
  rewrite parse_token_re_sub by assumption.
  repeat split; try reflexivity;
    try (apply str_of_Z_plain; assumption).
  apply (re_sub_rewritten (days streak goal)).
Qed.

Lemma set_streak_round_trip_witness :
  exists st',
    set_streak 12 30 (new_task scenario_A) = inr (tt, st') /\
    parse_token (content (task_item st')) = Some (12, 30)%Z.
Proof.
  destruct (set_streak_round_trip (new_task scenario_A) 12 30)
    as (st' & E & _ & _ & P & _).
  - exists (lit "Meditate "), (token_text " " (lit "4") (lit "10")),
      (lit "4"), (lit "10"), [].
    split; [|reflexivity].
    constructor; [reflexivity | split; [discriminate | reflexivity] ..].
  - lia.
  - lia.
  - exists st'. auto.
Defined.

(** C5: a task that is not an active habit (no token in its text, or no due
    date, or archived) is skipped by the pass whatever [today] is: the item
    is as it was and nothing is queued for it. *)
Theorem evaluate_skips_inactive today items i it :
  nth_error items i = Some it ->
  ~ contains_token (content it) \/ ~ has_due_date it \/ in_history it = true ->
  exists sts,
    update_streak today items = inr sts /\
    nth_error sts i = Some {| task_item := it; queue := [] |}.
Proof.
  intros Hn Hc.
  destruct (update_streak_nth today items i it Hn) as (sts & st & E & N & U).
  exists sts. split; [assumption|].
  rewrite update_item_skip in U.
  - injection U as <-. assumption.
  - intros (C & D & H). destruct Hc as [Hc|[Hc|Hc]];
      [contradiction | contradiction | congruence].
Qed.

Lemma evaluate_skips_inactive_witness :
  exists sts,
    update_streak (lit "2024-05-01") [scenario_A; scenario_D] = inr sts /\
    nth_error sts 1 = Some {| task_item := scenario_D; queue := [] |}.
Proof.
  apply (evaluate_skips_inactive (lit "2024-05-01") [scenario_A; scenario_D] 1
           scenario_D).
  - reflexivity.
  - left. apply re_search_none. reflexivity.
Defined.

(** C6: on a task whose text has a token reading streak [s] and goal [g],
    [decrease] rewrites the tokens to [max(0, s - 1)] with [g] kept and sets
    the due to the recurrence text; from [s = 0] the streak stays 0, and the
    streak written is digits only, never a sign. *)
Theorem decrease_floor st today :
  contains_token (content (task_item st)) ->
  exists s g st',
    parse_token (content (task_item st)) = Some (s, g) /\
    decrease today st = inr (tt, st') /\
    rewritten (days (Z.max 0 (s - 1)) g)
              (content (task_item st)) (content (task_item st')) /\
    parse_token (content (task_item st')) = Some (Z.max 0 (s - 1), g) /\
    due (task_item st')
    = Some {| d_date := None;
              d_string := Some (lit "ev day starting " ++ today) |} /\
    (s = 0%Z -> parse_token (content (task_item st')) = Some (0%Z, g)) /\
    forallb is_digit (str_of_Z (Z.max 0 (s - 1))) = true.
Proof.
  intros C. destruct (proj1 (parse_token_some _) C) as [[s g] P].
  destruct (parse_token_nonneg _ _ _ P) as [Hs Hg].
  exists s, g. eexists. split; [assumption|].
  unfold decrease, bind.
  rewrite current_streak_run, P, current_goal_run, P, set_streak_run.
  unfold update_due. cbn [task_item set_content set_due content due].
  split; [reflexivity|].
  split; [apply re_sub_rewritten|].
  assert (R : parse_token (re_sub (days (Z.max 0 (s - 1)) g)
                             (content (task_item st)))
              = Some (Z.max 0 (s - 1), g))
    by (apply parse_token_re_sub; (assumption || lia)).
  split; [exact R|]. split; [reflexivity|].
  split; [intros ->; exact R|].
  apply str_of_Z_plain. lia.
Qed.

Lemma decrease_floor_witness :
  exists s g st',
    parse_token (content scenario_A) = Some (s, g) /\
    decrease (lit "2024-05-02") (new_task scenario_A) = inr (tt, st') /\
    parse_token (content (task_item st')) = Some (Z.max 0 (s - 1), g).
Proof.
  destruct (decrease_floor (new_task scenario_A) (lit "2024-05-02"))
    as (s & g & st' & P & E & _ & P' & _).
  - exists (lit "Meditate "), (token_text " " (lit "4") (lit "10")),
      (lit "4"), (lit "10"), [].
    split; [|reflexivity].
    constructor; [reflexivity | split; [discriminate | reflexivity] ..].
  - exists s, g, st'. auto.
Defined.

(** C7: on a text with no substring matching the token grammar,
    [set_streak] leaves the text, and the item, as they were: no token is
    inserted. *)
Theorem set_streak_no_token st streak goal :
  ~ contains_token (content (task_item st)) ->
  exists st',
    set_streak streak goal st = inr (tt, st') /\
    content (task_item st') = content (task_item st) /\
    task_item st' = task_item st.
Proof.
  intros N. rewrite set_streak_run. eexists. split; [reflexivity|].
  cbn [task_item]. rewrite re_sub_no_token by assumption.
  split; [reflexivity|]. destruct (task_item st). reflexivity.
Qed.

Lemma set_streak_no_token_witness :
  exists st',
    set_streak 3 21 (new_task scenario_D) = inr (tt, st') /\
    content (task_item st') = lit "Buy milk".
Proof.
  destruct (set_streak_no_token (new_task scenario_D) 3 21) as (st' & E & C & _).
  - apply re_search_none. reflexivity.
  - exists st'. auto.
Defined.

(** C8: the pass does not raise and gives every task exactly one of the
    outcomes Skip, Reset, Increment, Increment+Delete; no task is both
    reset and deleted. *)
Theorem evaluate_one_outcome today items :
  exists sts,
    update_streak today items = inr sts /\ length sts = length items /\
    Forall (fun st =>
              (exists o, has_outcome o (queue st) /\
                         forall o', has_outcome o' (queue st) -> o' = o) /\
              ~ (was_reset (queue st) /\ was_deleted (queue st))) sts.
Proof.
  destruct (update_streak_total today items) as (sts & E & F).
  exists sts. split; [assumption|]. split.
  - symmetry. eapply Forall2_length. eassumption.
  - clear E. induction F as [|it st l l' U F IH]; constructor.
    + eapply update_item_outcome. eassumption.
    + assumption.
Qed.

(** C9: [is_habit] always returns, and returns false when the item has no
    [due]; on a task for which it returns true, [current_streak] and
    [current_goal] return and do not raise. *)
Theorem habit_gate_safe st :
  (exists b, is_habit st = inr (b, st)) /\
  (due (task_item st) = None -> is_habit st = inr (false, st)) /\
  (is_habit st = inr (true, st) ->
   exists s g, current_streak st = inr (s, st) /\
               current_goal st = inr (g, st)).
Proof.
  split; [apply is_habit_total|]. split.
  - intros D. apply is_habit_inactive.
    intros (_ & (d & t & D' & _) & _). congruence.
  - intros A. apply is_habit_active in A. destruct A as (C & _).
    apply parse_token_some in C. destruct C as [[s g] P].
    exists s, g. rewrite current_streak_run, current_goal_run, P. auto.
Qed.

Lemma habit_gate_safe_witness :
  exists s g,
    current_streak (new_task scenario_A) = inr (s, new_task scenario_A) /\
    current_goal (new_task scenario_A) = inr (g, new_task scenario_A).
Proof.
  apply (proj2 (proj2 (habit_gate_safe (new_task scenario_A)))).
  reflexivity.
Defined.

(** C10: [get_token] raises exactly when the variable is unset or empty;
    a value that is set and not empty is returned as it is; building the
    client fails with the same exception, without a second lookup. *)
Theorem get_token_raises_iff_unset environ :
  ((exists e, get_token environ = inl e) <->
   (getenv environ TODOIST_APIKEY = None \/
    getenv environ TODOIST_APIKEY = Some [])) /\
  (forall t, getenv environ TODOIST_APIKEY = Some t -> t <> [] ->
             get_token environ = inr (Some t)) /\
  (forall (api : Type) (TodoistAPI : option text -> api) e,
      get_token environ = inl e -> Todoist_init TodoistAPI environ = inl e).
Proof.
  unfold Todoist_init, get_token.
  destruct (getenv environ TODOIST_APIKEY) as [[|c t]|]; simpl.
  - split; [|split].
    + split; eauto.
    + intros t [= <-] N. contradiction.
    + intros api f e [= <-]. reflexivity.
  - split; [|split].
    + split; [intros [e [=]] | intros [[=]|[=]]].
    + intros t' [= <-] _. reflexivity.
    + intros api f e [=].
  - split; [|split].
    + split; eauto.
    + intros t [=].
    + intros api f e [= <-]. reflexivity.
Qed.

Lemma get_token_raises_iff_unset_witness :
  get_token [(TODOIST_APIKEY, lit "0123abcd")] = inr (Some (lit "0123abcd")).
Proof.
  apply (proj1 (proj2 (get_token_raises_iff_unset
                         [(TODOIST_APIKEY, lit "0123abcd")]))).
  - reflexivity.
  - discriminate.
Defined.

(** * Further properties of the code *)

(** ** Helper facts on the matcher *)

Lemma match_here_bracket c s x : match_here (c :: s) = Some x -> c = "[".
Proof.
  destruct x as [[d1 d2] r]. intros M. apply match_here_sound in M.
  destruct M as (w & _ & _ & _ & E). unfold token_text in E. simpl in E.
  congruence.
Qed.

Lemma re_search_no_bracket l : forall R,
  ~ In "[" l -> re_search R = None -> re_search (l ++ R) = None.
Proof.
  induction l as [|c l IH]; intros R N S; [assumption|].
  cbn [app]. rewrite re_search_cons.
  destruct (match_here (c :: l ++ R)) as [x|] eqn:M.
  - apply match_here_bracket in M. subst c. exfalso. apply N. left.
    reflexivity.
  - rewrite IH; [reflexivity | | assumption].
    intros I. apply N. right. assumption.
Qed.

(** A second [re.sub] over the result of a first one that wrote a token. *)
Lemma re_sub_override D1 D2 r2 s :
  digit_run D1 -> digit_run D2 ->
  re_sub r2 (re_sub (token_text " " D1 D2) s) = re_sub r2 s.
Proof.
  intros R1 R2. remember (length s) as n eqn:L. revert s L.
  induction n as [n IH] using lt_wf_ind. intros s ->.
  rewrite (re_sub_search (token_text " " D1 D2) s), (re_sub_search r2 s).
  destruct (re_search s) as [m|] eqn:S.
  - rewrite re_sub_search.
    rewrite (re_search_replaced s m D1 D2) by assumption.
    cbn [m_pre m_post]. f_equal. f_equal.
    apply (IH (length (m_post m))); [|reflexivity].
    destruct (re_search_split _ _ S) as (w & _ & _ & _ & Hs).
    rewrite Hs, !length_app. unfold token_text. simpl. lia.
  - rewrite re_sub_search, S. reflexivity.
Qed.

Lemma days_override s1 g1 r2 s :
  (0 <= s1)%Z -> (0 <= g1)%Z ->
  re_sub r2 (re_sub (days s1 g1) s) = re_sub r2 s.
Proof.
  intros H1 H2. rewrite days_token.
  apply re_sub_override; apply plain_decimal_run, str_of_Z_plain; assumption.
Qed.

Lemma contains_token_here pre w d1 d2 post :
  is_space w = true -> digit_run d1 -> digit_run d2 ->
  contains_token (pre ++ token_text w d1 d2 ++ post).
Proof.
  intros W R1 R2. exists pre, (token_text w d1 d2), d1, d2, post.
  split; [constructor; assumption | reflexivity].
Qed.

(** ** The search and the gate *)

(** X1: [get_habit] returns [None] exactly on a text without a token;
    otherwise its match is a token of the text, with digit runs as groups,
    and no token of the text starts before it. *)
Theorem get_habit_leftmost st :
  exists o,
    get_habit st = inr (o, st) /\
    (o = None <-> ~ contains_token (content (task_item st))) /\
    (forall m, o = Some m ->
       exists w,
         is_space w = true /\ digit_run (group1 m) /\ digit_run (group2 m) /\
         content (task_item st)
         = m_pre m ++ token_text w (group1 m) (group2 m) ++ m_post m /\
         forall pre tok d1 d2 post,
           token tok d1 d2 -> content (task_item st) = pre ++ tok ++ post ->
           length (m_pre m) <= length pre).
Proof.
  exists (re_search (content (task_item st))). split; [reflexivity|].
  split; [apply re_search_none|].
  intros m S. destruct (re_search_split _ _ S) as (w & W & R1 & R2 & Hs).
  exists w. split; [assumption|]. split; [assumption|].
  split; [assumption|]. split; [assumption|].
  intros pre tok d1 d2 post T E. eapply re_search_leftmost; eassumption.
Qed.

(** X2: [is_habit] returns true exactly when the text has a token, the item
    has a [due] dict with a non-empty date, and the item is not archived;
    it returns false otherwise and leaves the task as it was. *)
Theorem is_habit_iff_active st :
  exists b,
    is_habit st = inr (b, st) /\
    (b = true <->
     contains_token (content (task_item st)) /\
     (exists d t, due (task_item st) = Some d /\ d_date d = Some t /\ t <> []) /\
     in_history (task_item st) = false).
Proof.
  destruct (is_habit_total st) as [b E]. exists b. split; [assumption|].
  destruct b.
  - split; [intros _ | reflexivity]. apply is_habit_active. assumption.
  - split; [discriminate|]. intros A.
    apply (is_habit_active st) in A. congruence.
Qed.

(** ** Writing the token *)

(** X3: a [set_streak] after a [set_streak] with non-negative numbers gives
    the item that the second call alone gives: the last write wins, and
    writing the same numbers twice changes nothing more. *)
Theorem set_streak_last_wins st s1 g1 s2 g2 :
  (0 <= s1)%Z -> (0 <= g1)%Z ->
  exists st1 st2 st',
    set_streak s1 g1 st = inr (tt, st1) /\
    set_streak s2 g2 st1 = inr (tt, st2) /\
    set_streak s2 g2 st = inr (tt, st') /\
    task_item st2 = task_item st'.
Proof.
  intros H1 H2. eexists. eexists. eexists.
  split; [apply set_streak_run|]. split; [apply set_streak_run|].
  split; [apply set_streak_run|].
  cbn [task_item set_content content due in_history]. unfold set_content.
  cbn [content due in_history].
  rewrite days_override by assumption. reflexivity.
Qed.

Lemma set_streak_last_wins_witness :
  exists st1 st2 st',
    set_streak 7 10 (new_task two_tokens) = inr (tt, st1) /\
    set_streak 2 3 st1 = inr (tt, st2) /\
    set_streak 2 3 (new_task two_tokens) = inr (tt, st') /\
    task_item st2 = task_item st'.
Proof.
  apply (set_streak_last_wins (new_task two_tokens) 7 10 2 3); lia.
Defined.

(** X4: on a text whose first token is followed by no other token,
    [set_streak] replaces that token alone: the text before it and the text
    after it are kept as they are. *)
Theorem set_streak_single_token st streak goal m :
  get_habit st = inr (Some m, st) ->
  ~ contains_token (m_post m) ->
  exists st',
    set_streak streak goal st = inr (tt, st') /\
    content (task_item st') = m_pre m ++ days streak goal ++ m_post m.
Proof.
  intros G N. rewrite set_streak_run. eexists. split; [reflexivity|].
  cbn [task_item set_content content].
  assert (S : re_search (content (task_item st)) = Some m).
  { unfold get_habit, bind, get_item, ret in G. congruence. }
  rewrite re_sub_search, S, (re_sub_no_token _ (m_post m)) by assumption.
  reflexivity.
Qed.

Lemma set_streak_single_token_witness :
  exists st',
    set_streak 5 10 (new_task scenario_A) = inr (tt, st') /\
    content (task_item st') = lit "Meditate [day 5/10]".
Proof.
  apply (set_streak_single_token (new_task scenario_A) 5 10
           {| m_pre := lit "Meditate "; group1 := lit "4"; group2 := lit "10";
              m_post := [] |}).
  - reflexivity.
  - apply re_search_none. reflexivity.
Defined.

(** ** Reading the numbers *)

Lemma parse_token_none s : ~ contains_token s -> parse_token s = None.
Proof.
  intros N. apply re_search_none in N. unfold parse_token. rewrite N.
  reflexivity.
Qed.

Lemma current_streak_parse st s st' :
  current_streak st = inr (s, st') ->
  exists g, parse_token (content (task_item st)) = Some (s, g).
Proof.
  rewrite current_streak_run.
  destruct (parse_token (content (task_item st))) as [[a b]|];
    [|discriminate].
  intros [= <- _]. eauto.
Qed.

Lemma current_parse st s g st1 st2 :
  current_streak st = inr (s, st1) -> current_goal st = inr (g, st2) ->
  parse_token (content (task_item st)) = Some (s, g).
Proof.
  rewrite current_streak_run, current_goal_run.
  destruct (parse_token (content (task_item st))) as [[a b]|];
    [|discriminate].
  intros [= <- _] [= <- _]. reflexivity.
Qed.

(** X5: [current_streak] and [current_goal] raise [AttributeError] on a
    text without a token; on a text with a token they return, leave the
    task as it was, and what they return is never negative. *)
Theorem current_streak_goal_results st :
  (~ contains_token (content (task_item st)) ->
   current_streak st = inl AttributeError /\
   current_goal st = inl AttributeError) /\
  (contains_token (content (task_item st)) ->
   exists s g,
     current_streak st = inr (s, st) /\ current_goal st = inr (g, st) /\
     (0 <= s)%Z /\ (0 <= g)%Z).
Proof.
  rewrite current_streak_run, current_goal_run. split.
  - intros N. rewrite parse_token_none by assumption. auto.
  - intros C. apply parse_token_some in C. destruct C as [[s g] P].
    rewrite P. exists s, g. destruct (parse_token_nonneg _ _ _ P). auto.
Qed.

Lemma current_streak_goal_results_witness :
  exists s g,
    current_streak (new_task scenario_B) = inr (s, new_task scenario_B) /\
    current_goal (new_task scenario_B) = inr (g, new_task scenario_B) /\
    (0 <= s)%Z /\ (0 <= g)%Z.
Proof.
  apply (proj2 (current_streak_goal_results (new_task scenario_B))).
  exists (lit "Meditate "), (token_text " " (lit "9") (lit "10")),
    (lit "9"), (lit "10"), [].
  split; [|reflexivity].
  constructor; [reflexivity | split; [discriminate | reflexivity] ..].
Defined.

(** X6: on a task whose text has no token, [increase], [decrease],
    [reset_to_zero] and [habbit_complete] raise [AttributeError]: only the
    gate of the pass keeps them from it. *)
Theorem methods_raise_without_token st n today :
  ~ contains_token (content (task_item st)) ->
  increase n st = inl AttributeError /\
  decrease today st = inl AttributeError /\
  reset_to_zero today st = inl AttributeError /\
  habbit_complete st = inl AttributeError.
Proof.
  intros N. apply parse_token_none in N.
  unfold increase, decrease, reset_to_zero, bind.
  rewrite habbit_complete_run, current_streak_run, current_goal_run, N. auto.
Qed.

Lemma methods_raise_without_token_witness :
  increase 1 (new_task scenario_D) = inl AttributeError /\
  decrease (lit "2024-05-01") (new_task scenario_D) = inl AttributeError /\
  reset_to_zero (lit "2024-05-01") (new_task scenario_D) = inl AttributeError /\
  habbit_complete (new_task scenario_D) = inl AttributeError.
Proof.
  apply (methods_raise_without_token (new_task scenario_D) 1 (lit "2024-05-01")).
  apply re_search_none. reflexivity.
Defined.

(** X7: [is_due] raises [AttributeError] on an item without a [due] dict;
    with one, it returns false exactly when the date of the dict is
    [today], so a dict without a date counts as due. *)
Theorem is_due_results st today :
  (due (task_item st) = None -> is_due today st = inl AttributeError) /\
  (forall d, due (task_item st) = Some d ->
     exists b, is_due today st = inr (b, st) /\
               (b = false <-> d_date d = Some today)).
Proof.
  unfold is_due, due_date, bind, get_item, ret, raise. split.
  - intros ->. reflexivity.
  - intros d ->. destruct (d_date d) as [t|].
    + eexists. split; [reflexivity|].
      destruct (text_eqb t today) eqn:E; simpl.
      * apply text_eqb_eq in E. subst. tauto.
      * split; [discriminate|]. intros [= ->].
        rewrite (proj2 (text_eqb_eq today today) eq_refl) in E. discriminate.
    + eexists. split; [reflexivity|]. split; discriminate.
Qed.

(** ** Moving the streak *)

(** X8: when the task reads streak [s] and goal [g] and [s + n] is not
    negative, [increase n] makes it read [s + n] and [g]; it queues one
    content update and keeps the other fields of the item. *)
Theorem increase_reads_back st n s g :
  current_streak st = inr (s, st) -> current_goal st = inr (g, st) ->
  (0 <= s + n)%Z ->
  exists st',
    increase n st = inr (tt, st') /\
    current_streak st' = inr ((s + n)%Z, st') /\
    current_goal st' = inr (g, st') /\
    queue st' = queue st ++ [item_update_content (content (task_item st'))] /\
    due (task_item st') = due (task_item st) /\
    in_history (task_item st') = in_history (task_item st).
Proof.
  intros Cs Cg Hn. pose proof (current_parse _ _ _ _ _ Cs Cg) as P.
  destruct (parse_token_nonneg _ _ _ P) as [Hs Hg].
  unfold increase, bind. rewrite Cs, Cg, set_streak_run.
  eexists. split; [reflexivity|].
  rewrite current_streak_run, current_goal_run.
  cbn [task_item set_content content queue due in_history].
  rewrite parse_token_re_sub
    by (assumption || (apply parse_token_some; eauto)).
  repeat split; reflexivity.
Qed.

Lemma increase_reads_back_witness :
  exists st',
    increase 3 (new_task scenario_A) = inr (tt, st') /\
    current_streak st' = inr (7%Z, st').
Proof.
  destruct (increase_reads_back (new_task scenario_A) 3 4 10)
    as (st' & E & S & _).
  - reflexivity.
  - reflexivity.
  - lia.
  - exists st'. auto.
Defined.

(** X9: two calls of [increase] give the item that one call with the sum
    gives, when the streak after the first call is not negative. *)
Theorem increase_twice st a b s :
  current_streak st = inr (s, st) -> (0 <= s + a)%Z ->
  exists st1 st2 st',
    increase a st = inr (tt, st1) /\
    increase b st1 = inr (tt, st2) /\
    increase (a + b) st = inr (tt, st') /\
    task_item st2 = task_item st'.
Proof.
  intros Cs Ha. destruct (current_streak_parse _ _ _ Cs) as [g P].
  destruct (parse_token_nonneg _ _ _ P) as [Hs Hg].
  assert (C : contains_token (content (task_item st)))
    by (apply parse_token_some; eauto).
  unfold increase, bind.
  rewrite current_streak_run, P, current_goal_run, P, !set_streak_run.
  eexists. eexists. eexists. split; [reflexivity|].
  rewrite current_streak_run.
  cbn [task_item set_content content].
  rewrite parse_token_re_sub by assumption.
  rewrite current_goal_run. cbn [task_item set_content content].
  rewrite parse_token_re_sub by assumption.
  rewrite set_streak_run. split; [reflexivity|]. split; [reflexivity|].
  cbn [task_item set_content content due in_history]. unfold set_content.
  cbn [content due in_history].
  rewrite days_override by assumption.
  replace (s + a + b)%Z with (s + (a + b))%Z by lia. reflexivity.
Qed.

Lemma increase_twice_witness :
  exists st1 st2 st',
    increase 2 (new_task scenario_A) = inr (tt, st1) /\
    increase 3 st1 = inr (tt, st2) /\
    increase (2 + 3) (new_task scenario_A) = inr (tt, st') /\
    task_item st2 = task_item st'.
Proof.
  apply (increase_twice (new_task scenario_A) 2 3 4).
  - reflexivity.
  - lia.
Defined.

Lemma str_of_N_no_bracket n : ~ In "[" (str_of_N n).
Proof.
  intros I. destruct (str_of_N_plain n) as (D & _).
  rewrite forallb_forall in D. apply D in I. discriminate.
Qed.

Lemma str_of_Z_no_bracket z : ~ In "[" (str_of_Z z).
Proof.
  unfold str_of_Z. destruct (z <? 0)%Z.
  - intros [I|I]; [discriminate|]. apply str_of_N_no_bracket in I. assumption.
  - apply str_of_N_no_bracket.
Qed.

(** A token written over the leftmost match that does not match itself and
    has no further opening bracket leaves no match up to its end. *)
Lemma re_search_spoiled s : forall m repl R,
  re_search s = Some m ->
  match_here (("[" :: repl) ++ R) = None -> ~ In "[" repl ->
  re_search R = None ->
  re_search (m_pre m ++ ("[" :: repl) ++ R) = None.
Proof.
  induction s as [|c s IH]; intros m repl R; [discriminate|].
  rewrite re_search_cons.
  destruct (match_here (c :: s)) as [[[d1 d2] r]|] eqn:E.
  - intros [= <-] M N S. cbn [m_pre app] in *.
    rewrite re_search_cons, M, re_search_no_bracket by assumption.
    reflexivity.
  - destruct (re_search s) as [m'|] eqn:S'; [|discriminate].
    intros [= <-] M N S. cbn [m_pre shift app].
    rewrite re_search_cons.
    destruct (match_here (c :: m_pre m' ++ "[" :: repl ++ R))
      as [[[e1 e2] r]|] eqn:E'.
    + exfalso.
      change (c :: m_pre m' ++ "[" :: repl ++ R)
        with ((c :: m_pre m') ++ "[" :: repl ++ R) in E'.
      apply match_here_before_bracket in E'; [|discriminate].
      destruct E' as [l E'].
      destruct (re_search_split _ _ S') as (w & _ & _ & _ & Hs).
      specialize (E' (token_text w (group1 m') (group2 m') ++ m_post m')).
      rewrite <- app_comm_cons, <- Hs in E'. congruence.
    + pose proof (IH m' repl R eq_refl M N S) as X. cbn [app] in X.
      rewrite X. reflexivity.
Qed.

Lemma days_negative z g :
  (z < 0)%Z ->
  exists repl, days z g = "[" :: repl /\ ~ In "[" repl /\
               forall R, match_here (("[" :: repl) ++ R) = None.
Proof.
  intros Hz. unfold days, str_of_Z.
  destruct (Z.ltb_spec z 0) as [_|]; [|lia].
  eexists. split; [reflexivity|]. split.
  - cbn [lit list_ascii_of_string app].
    intros [I|[I|[I|[I|[I|I]]]]]; try discriminate.
    apply in_app_or in I. destruct I as [I|[I|I]]; try discriminate.
    + apply str_of_N_no_bracket in I. assumption.
    + apply in_app_or in I. destruct I as [I|[I|[]]]; try discriminate.
      apply str_of_Z_no_bracket in I. assumption.
  - intros R. reflexivity.
Qed.

Lemma re_sub_spoils repl s :
  (forall R, match_here (("[" :: repl) ++ R) = None) -> ~ In "[" repl ->
  re_search (re_sub ("[" :: repl) s) = None.
Proof.
  intros M N. remember (length s) as n eqn:L. revert s L.
  induction n as [n IH] using lt_wf_ind. intros s ->.
  rewrite re_sub_search. destruct (re_search s) as [m|] eqn:S.
  - apply (re_search_spoiled s); try assumption; [apply M|].
    apply (IH (length (m_post m))); [|reflexivity].
    destruct (re_search_split _ _ S) as (w & _ & _ & _ & Hs).
    rewrite Hs, !length_app. unfold token_text. simpl. lia.
  - assumption.
Qed.

(** X10: [increase] with a step that takes the streak below zero writes a
    signed number, which the pattern does not match: the text is left
    without any token and [current_streak] raises afterwards. *)
Theorem increase_below_zero st n s :
  current_streak st = inr (s, st) -> (s + n < 0)%Z ->
  exists st',
    increase n st = inr (tt, st') /\
    ~ contains_token (content (task_item st')) /\
    current_streak st' = inl AttributeError.
Proof.
  intros Cs Hn. destruct (current_streak_parse _ _ _ Cs) as [g P].
  unfold increase, bind.
  rewrite current_streak_run, P, current_goal_run, P, set_streak_run.
  eexists. split; [reflexivity|].
  rewrite current_streak_run. cbn [task_item set_content content].
  destruct (days_negative (s + n) g Hn) as (repl & -> & N & M).
  pose proof (re_sub_spoils repl (content (task_item st)) M N) as S.
  split.
  - apply re_search_none. assumption.
  - unfold parse_token. rewrite S. reflexivity.
Qed.

Lemma increase_below_zero_witness :
  exists st',
    increase (-5) (new_task scenario_A) = inr (tt, st') /\
    ~ contains_token (content (task_item st')) /\
    current_streak st' = inl AttributeError.
Proof.
  apply (increase_below_zero (new_task scenario_A) (-5) 4).
  - reflexivity.
  - lia.
Defined.

(** X11: [decrease] after [increase] by one gives back the streak and the
    goal the task read before, and leaves the due as the recurrence text. *)
Theorem decrease_undoes_increase st today s g :
  current_streak st = inr (s, st) -> current_goal st = inr (g, st) ->
  exists st1 st2,
    increase 1 st = inr (tt, st1) /\
    decrease today st1 = inr (tt, st2) /\
    current_streak st2 = inr (s, st2) /\
    current_goal st2 = inr (g, st2) /\
    due (task_item st2) = Some (recurrence today).
Proof.
  intros Cs Cg. pose proof (current_parse _ _ _ _ _ Cs Cg) as P.
  destruct (parse_token_nonneg _ _ _ P) as [Hs Hg].
  assert (C : contains_token (content (task_item st)))
    by (apply parse_token_some; eauto).
  unfold increase, decrease, bind.
  rewrite Cs, Cg, set_streak_run.
  eexists. eexists. split; [reflexivity|].
  rewrite current_streak_run. cbn [task_item set_content content].
  rewrite parse_token_re_sub by (assumption || lia).
  rewrite current_goal_run. cbn [task_item set_content content].
  rewrite parse_token_re_sub by (assumption || lia).
  rewrite set_streak_run. unfold update_due.
  split; [reflexivity|].
  rewrite current_streak_run, current_goal_run.
  cbn [task_item set_content set_due content due].
  rewrite days_override by lia.
  rewrite parse_token_re_sub by (assumption || lia).
  replace (Z.max 0 (s + 1 - 1)) with s by lia. auto.
Qed.

Lemma decrease_undoes_increase_witness :
  exists st1 st2,
    increase 1 (new_task scenario_A) = inr (tt, st1) /\
    decrease (lit "2024-05-02") st1 = inr (tt, st2) /\
    current_streak st2 = inr (4%Z, st2).
Proof.
  destruct (decrease_undoes_increase (new_task scenario_A) (lit "2024-05-02")
              4 10) as (st1 & st2 & E1 & E2 & S & _).
  - reflexivity.
  - reflexivity.
  - exists st1, st2. auto.
Defined.

(** ** The pass as a whole *)

Lemma update_streak_app today l1 : forall l2 sts1 sts2,
  update_streak today l1 = inr sts1 -> update_streak today l2 = inr sts2 ->
  update_streak today (l1 ++ l2) = inr (sts1 ++ sts2).
Proof.
  induction l1 as [|it l1 IH]; intros l2 sts1 sts2; simpl.
  - intros [= <-] E. assumption.
  - destruct (update_item today (new_task it)) as [e|[[] st]]; [discriminate|].
    destruct (update_streak today l1) as [e|sts] eqn:E1; [discriminate|].
    intros [= <-] E2. rewrite (IH l2 sts sts2 eq_refl E2). reflexivity.
Qed.

(** X12: the pass over a list followed by another is the pass over the
    first followed by the pass over the second: each task is treated on its
    own, in the order of the list, and the pass does not raise. *)
Theorem update_streak_appends today l1 l2 :
  exists sts1 sts2,
    update_streak today l1 = inr sts1 /\
    update_streak today l2 = inr sts2 /\
    update_streak today (l1 ++ l2) = inr (sts1 ++ sts2) /\
    length sts1 = length l1 /\ length sts2 = length l2.
Proof.
  destruct (update_streak_total today l1) as (sts1 & E1 & F1).
  destruct (update_streak_total today l2) as (sts2 & E2 & F2).
  exists sts1, sts2. split; [assumption|]. split; [assumption|].
  split; [apply update_streak_app; assumption|].
  split; symmetry; eapply Forall2_length; eassumption.
Qed.

(** X13: the pass queues something for a task exactly when the task is an
    active habit, and what it queues first is then the update of the
    content to the text the item now has. *)
Theorem pass_queues_for_active_only today items i it :
  nth_error items i = Some it ->
  exists sts st,
    update_streak today items = inr sts /\ nth_error sts i = Some st /\
    (queue st = [] <-> ~ active_habit it) /\
    (active_habit it ->
     exists rest,
       queue st = item_update_content (content (task_item st)) :: rest).
Proof.
  intros Hn.
  destruct (update_streak_nth today items i it Hn) as (sts & st & E & N & U).
  exists sts, st. split; [assumption|]. split; [assumption|].
  destruct (update_item_cases today it)
    as [A | [(s & g & t & P & D & H & Ne) | (s & g & P & D & H)]].
  - rewrite update_item_skip in U by assumption. injection U as <-.
    cbn [queue new_task]. split; [tauto | contradiction].
  - pose proof (active_habit_intro _ _ _ _ P D H) as A.
    rewrite (update_item_reset today it s g t) in U by assumption.
    injection U as <-. cbn [queue task_item set_due set_content content].
    split; [split; [discriminate | contradiction] | eauto].
  - pose proof (active_habit_intro _ _ _ _ P D H) as A.
    rewrite (update_item_increase today it s g) in U by assumption.
    injection U as <-. cbn [queue task_item set_content content].
    split; [split; [discriminate | contradiction] | eauto].
Qed.

Lemma pass_queues_for_active_only_witness :
  exists sts st,
    update_streak (lit "2024-05-01") [scenario_D; scenario_A] = inr sts /\
    nth_error sts 1 = Some st /\
    queue st <> [].
Proof.
  destruct (pass_queues_for_active_only (lit "2024-05-01")
              [scenario_D; scenario_A] 1 scenario_A eq_refl)
    as (sts & st & E & N & _ & Q).
  exists sts, st. split; [assumption|]. split; [assumption|].
  destruct Q as [rest ->]; [|discriminate].
  split; [|split; [|reflexivity]].
  - exists (lit "Meditate "), (token_text " " (lit "4") (lit "10")),
      (lit "4"), (lit "10"), [].
    split; [|reflexivity].
    constructor; [reflexivity | split; [discriminate | reflexivity] ..].
  - eexists. eexists. repeat split; try reflexivity. discriminate.
Defined.

(** X14: the pass keeps the archived flag of every item, leaves a text
    with a token with a token and a text without one without, never
    changes a goal, and leaves a streak as it was, at zero, or one
    higher. *)
Theorem pass_keeps_goal today items i it :
  nth_error items i = Some it ->
  exists sts st,
    update_streak today items = inr sts /\ nth_error sts i = Some st /\
    in_history (task_item st) = in_history it /\
    (contains_token (content it) <-> contains_token (content (task_item st))) /\
    (forall s g,
        parse_token (content it) = Some (s, g) ->
        exists s',
          parse_token (content (task_item st)) = Some (s', g) /\
          (s' = s \/ s' = 0%Z \/ s' = (s + 1)%Z)).
Proof.
  intros Hn.
  destruct (update_streak_nth today items i it Hn) as (sts & st & E & N & U).
  exists sts, st. split; [assumption|]. split; [assumption|].
  destruct (update_item_cases today it)
    as [A | [(s & g & t & P & D & H & Ne) | (s & g & P & D & H)]].
  - rewrite update_item_skip in U by assumption. injection U as <-.
    cbn [task_item new_task]. split; [reflexivity|]. split; [tauto|].
    intros s g P. exists s. auto.
  - rewrite (update_item_reset today it s g t) in U by assumption.
    injection U as <-.
    cbn [task_item set_due set_content content in_history].
    destruct (parse_token_nonneg _ _ _ P) as [Hs Hg].
    assert (C : contains_token (content it))
      by (apply parse_token_some; eauto).
    assert (P' : parse_token (re_sub (days 0 g) (content it)) = Some (0%Z, g))
      by (apply parse_token_re_sub; (assumption || lia)).
    split; [reflexivity|]. split.
    + split; [intros _; apply parse_token_some; eauto | auto].
    + intros s0 g0 P0. rewrite P in P0. injection P0 as <- <-.
      exists 0%Z. auto.
  - rewrite (update_item_increase today it s g) in U by assumption.
    injection U as <-. cbn [task_item set_content content in_history].
    destruct (parse_token_nonneg _ _ _ P) as [Hs Hg].
    assert (C : contains_token (content it))
      by (apply parse_token_some; eauto).
    assert (P' : parse_token (re_sub (days (s + 1) g) (content it))
                 = Some ((s + 1)%Z, g))
      by (apply parse_token_re_sub; (assumption || lia)).
    split; [reflexivity|]. split.
    + split; [intros _; apply parse_token_some; eauto | auto].
    + intros s0 g0 P0. rewrite P in P0. injection P0 as <- <-.
      exists (s + 1)%Z. auto.
Qed.

Lemma pass_keeps_goal_witness :
  exists sts st,
    update_streak (lit "2024-05-02") [scenario_B] = inr sts /\
    nth_error sts 0 = Some st /\
    in_history (task_item st) = false.
Proof.
  destruct (pass_keeps_goal (lit "2024-05-02") [scenario_B] 0 scenario_B
              eq_refl) as (sts & st & E & N & H & _).
  exists sts, st. auto.
Defined.

Lemma nth_error_task_item sts i (st : task) :
  nth_error sts i = Some st ->
  nth_error (map task_item sts) i = Some (task_item st).
Proof. intros N. rewrite nth_error_map, N. reflexivity. Qed.

(** X15: a task the pass has reset has a [due] without a date afterwards,
    so a further pass over the items as the first pass left them, on any
    day, skips it. *)
Theorem second_pass_skips_reset today today2 items i it s g t :
  nth_error items i = Some it ->
  parse_token (content it) = Some (s, g) ->
  due_on it t -> t <> today -> in_history it = false ->
  exists sts st sts2,
    update_streak today items = inr sts /\ nth_error sts i = Some st /\
    is_habit st = inr (false, st) /\
    update_streak today2 (map task_item sts) = inr sts2 /\
    nth_error sts2 i = Some (new_task (task_item st)).
Proof.
  intros Hn P D Ne H.
  destruct (update_streak_nth today items i it Hn) as (sts & st & E & N & U).
  destruct (update_streak_nth today2 (map task_item sts) i (task_item st)
              (nth_error_task_item _ _ _ N)) as (sts2 & st2 & E2 & N2 & U2).
  exists sts, st, sts2. split; [assumption|]. split; [assumption|].
  rewrite (update_item_reset today it s g t) in U by assumption.
  injection U as <-. cbn [task_item] in *.
  assert (A : ~ active_habit
                (set_due (recurrence today)
                   (set_content (re_sub (days 0 g) (content it)) it))).
  { intros (_ & (d & t' & D' & T' & _) & _). cbn [set_due due] in D'.
    injection D' as <-. discriminate. }
  split; [apply is_habit_inactive; assumption|].
  split; [assumption|].
  rewrite update_item_skip in U2 by assumption. injection U2 as <-.
  assumption.
Qed.

Lemma second_pass_skips_reset_witness :
  exists sts st sts2,
    update_streak (lit "2024-05-02") [scenario_A] = inr sts /\
    nth_error sts 0 = Some st /\
    update_streak (lit "2024-05-03") (map task_item sts) = inr sts2 /\
    nth_error sts2 0 = Some (new_task (task_item st)).
Proof.
  destruct (second_pass_skips_reset (lit "2024-05-02") (lit "2024-05-03")
              [scenario_A] 0 scenario_A 4 10 (lit "2024-05-01"))
    as (sts & st & sts2 & E & N & _ & E2 & N2).
  - reflexivity.
  - reflexivity.
  - eexists. repeat split; try reflexivity. discriminate.
  - discriminate.
  - reflexivity.
  - exists sts, st, sts2. auto.
Defined.

(** X16: nothing marks a task as counted for the day: when the first pass
    incremented a habit due today without reaching its goal, a second pass
    on the same day over the items as the first pass left them increments
    it once more, to [s + 2], and queues the delete when [s + 2 >= g]. *)
Theorem second_pass_increments_again today items i it s g :
  nth_error items i = Some it ->
  parse_token (content it) = Some (s, g) ->
  due_on it today -> in_history it = false -> (s + 1 < g)%Z ->
  exists sts st sts2 st2,
    update_streak today items = inr sts /\ nth_error sts i = Some st /\
    ~ was_deleted (queue st) /\
    update_streak today (map task_item sts) = inr sts2 /\
    nth_error sts2 i = Some st2 /\
    parse_token (content (task_item st)) = Some ((s + 1)%Z, g) /\
    parse_token (content (task_item st2)) = Some ((s + 2)%Z, g) /\
    (was_deleted (queue st2) <-> (s + 2 >= g)%Z).
Proof.
  intros Hn P D H Lt.
  destruct (update_streak_nth today items i it Hn) as (sts & st & E & N & U).
  destruct (update_streak_nth today (map task_item sts) i (task_item st)
              (nth_error_task_item _ _ _ N)) as (sts2 & st2 & E2 & N2 & U2).
  exists sts, st, sts2, st2.
  split; [assumption|]. split; [assumption|].
  destruct (parse_token_nonneg _ _ _ P) as [Hs Hg].
  assert (C : contains_token (content it)) by (apply parse_token_some; eauto).
  rewrite (update_item_increase today it s g) in U by assumption.
  injection U as <-. cbn [task_item queue] in *.
  split.
  { destruct (Z.leb_spec g (s + 1)); [lia|]. intros [Q|[]]. discriminate. }
  split; [assumption|]. split; [assumption|].
  assert (P1 : parse_token
                 (content (set_content (re_sub (days (s + 1) g) (content it)) it))
               = Some ((s + 1)%Z, g))
    by (apply parse_token_re_sub; (assumption || lia)).
  rewrite (update_item_increase today _ (s + 1) g) in U2;
    [| assumption | exact D | exact H].
  injection U2 as <-. cbn [task_item queue set_content content] in *.
  split; [assumption|].
  replace (s + 1 + 1)%Z with (s + 2)%Z by lia.
  split.
  - apply parse_token_re_sub; [apply parse_token_some; eauto | lia | lia].
  - unfold was_deleted. destruct (Z.leb_spec g (s + 2)); simpl; split.
    + lia.
    + auto.
    + intros [Q|[]]. discriminate.
    + lia.
Qed.

Lemma second_pass_increments_again_witness :
  exists sts st sts2 st2,
    update_streak (lit "2024-05-01") [scenario_A] = inr sts /\
    nth_error sts 0 = Some st /\
    update_streak (lit "2024-05-01") (map task_item sts) = inr sts2 /\
    nth_error sts2 0 = Some st2 /\
    parse_token (content (task_item st2)) = Some (6, 10)%Z.
Proof.
  destruct (second_pass_increments_again (lit "2024-05-01") [scenario_A] 0
              scenario_A 4 10)
    as (sts & st & sts2 & st2 & E & N & _ & E2 & N2 & _ & P2 & _).
  - reflexivity.
  - reflexivity.
  - eexists. repeat split; try reflexivity. discriminate.
  - reflexivity.
  - lia.
  - exists sts, st, sts2, st2. auto.
Defined.
